(** * sequence-to-formula: the interpolation engine of [sequence.js] and [utils.js]

    A shallow embedding of the [Sequence] class (constructor,
    [_computeCoefficient], [_interpolate], [getNthTerm], [toFormula]) and
    of the two arithmetic helpers [factorial] and [fallingFactorial],
    followed by the properties of the engine.

    Numbers.  A JavaScript number is an IEEE-754 double.  The embedding keeps
    the value space of the code ([undefined], [NaN], finite numbers) but
    computes on finite numbers exactly, in the canonical rationals [Qc]:
    every finite double is such a rational, and rounding and overflow are
    left out.  All statements below are therefore statements about the
    exact arithmetic of the formulas the code evaluates. *)

From Stdlib Require Import QArith Qcanon Field Lia.
From stdpp Require Import base numbers list strings pretty.

Local Open Scope Qc_scope.

(** ** Values and arithmetic *)

Inductive value : Type :=
  | Undefined
  | NaN
  | Num (q : Qc).

Global Instance value_eq_dec : EqDecision value.
Proof. solve_decision. Defined.

Global Instance value_inhabited : Inhabited value := populate Undefined.

(** A natural number as a rational. *)
Definition Qn (i : nat) : Qc := Qc_of_Z (Z.of_nat i).

(** A numeric literal or loop counter used as a number. *)
Definition of_nat (i : nat) : value := Num (Qn i).
Definition of_Z (z : Z) : value := Num (Qc_of_Z z).

Definition is_finite (v : value) : Prop := ∃ q, v = Num q.

Global Instance is_finite_dec v : Decision (is_finite v).
Proof.
  destruct v as [| |q]; [right; intros [? ?]; discriminate ..|left; by exists q].
Defined.

(** The binary operators [-], [*], [+] on two operands that are numbers or
    [undefined]: [undefined] converts to [NaN], and [NaN] is absorbing. *)
Definition arith (op : Qc → Qc → Qc) (a b : value) : value :=
  match a, b with
  | Num x, Num y => Num (op x y)
  | _, _ => NaN
  end.

Definition jssub : value → value → value := arith Qcminus.
Definition jsmul : value → value → value := arith Qcmult.
Definition jsadd : value → value → value := arith Qcplus.

(** [a / b].  A zero divisor would give an infinity or [NaN] in JavaScript;
    the embedding has no infinities and answers [NaN].  The engine only
    divides by [factorial i], which is never zero ([factorial_fact]). *)
Definition jsdiv (a b : value) : value :=
  match a, b with
  | Num x, Num y => if decide (y = 0) then NaN else Num (x / y)
  | _, _ => NaN
  end.

(** ** Arrays

    An array is the list of its slots.  A slot that was never assigned (a
    hole of [new Array(len)]) reads as [undefined], and the code only reads
    slots by index, so a hole is the slot [Undefined]. *)

Definition array_get (a : list value) (i : nat) : value :=
  default Undefined (a !! i).

(** [a[i] = v]: in range the slot is overwritten; past the end the array
    grows, the slots in between being holes. *)
Definition array_set (a : list value) (i : nat) (v : value) : list value :=
  if decide (i < length a)%nat then <[i := v]> a
  else a ++ replicate (i - length a) Undefined ++ [v].

(** ** Loops

    [for (let i = from; i < bound; i++) body] and
    [for (let k = from; k > bound; k--) body], as folds of the loop body
    over the values the counter takes. *)
Definition for_up {St : Type} (from bound : nat) (body : St → nat → St)
    (init : St) : St :=
  foldl body init (seq from (bound - from)).

Definition for_down {St : Type} (from bound : nat) (body : St → nat → St)
    (init : St) : St :=
  foldl body init (reverse (seq (S bound) (from - bound))).

(** ** utils.js *)

(** [factorial(num)]: [result = 1; for (i = 2; i <= num; i++) result *= i]. *)
Definition factorial (num : nat) : value :=
  for_up 2 (S num) (λ result i, jsmul result (of_nat i)) (Num 1).

(** [fallingFactorial(n, length)]:
    [result = 1; for (i = 1; i <= length; i++) result *= n - i]. *)
Definition fallingFactorial (n : value) (length : nat) : value :=
  for_up 1 (S length) (λ result i, jsmul result (jssub n (of_nat i))) (Num 1).

(** ** sequence.js: the [Sequence] class *)

Record Sequence : Type := mkSequence {
  terms : list value;
  coefficients : list value;
}.

Global Instance Sequence_eq_dec : EqDecision Sequence.
Proof. solve_decision. Defined.

(** [this.coefficients[i] = v]. *)
Definition set_coefficient (this : Sequence) (i : nat) (v : value) : Sequence :=
  mkSequence (terms this) (array_set (coefficients this) i v).

(** The statement shared by the loops of [_computeCoefficient] and
    [_interpolate]:
    [((terms[i] - this.coefficients[i - 1]) * fallingFactorial(n, i)) / factorial(i) + result].
    The counter [i] starts at 1, so [i - 1] is never negative. *)
Definition newton_step (this : Sequence) (terms : list value) (n : value)
    (result : value) (i : nat) : value :=
  jsadd
    (jsdiv
       (jsmul (jssub (array_get terms i) (array_get (coefficients this) (i - 1)))
              (fallingFactorial n i))
       (factorial i))
    result.

(** The loop of [_computeCoefficient], with both of its variables: the pair
    is [(result, coefficient)] when the loop ends. *)
Definition computeCoefficient_loop (this : Sequence) (terms : list value)
    (n : value) : value * value :=
  for_up 1 (length terms)
    (λ '(result, coefficient) i,
       let result := newton_step this terms n result i in
       let coefficient :=
         if bool_decide (i < length terms - 1)%nat then result else coefficient in
       (result, coefficient))
    (array_get terms 0, array_get terms 0).

Definition _computeCoefficient (this : Sequence) (terms : list value)
    (n : value) : value :=
  snd (computeCoefficient_loop this terms n).

Definition _interpolate (this : Sequence) (terms : list value) (n : value) : value :=
  for_up 1 (length terms)
    (λ result i, newton_step this terms n result i)
    (array_get terms 0).

(** One turn of the constructor's loop:
    [this.coefficients[i - 1] = this._computeCoefficient(...terms.slice(0, i + 1))(i + 1)]. *)
Definition constructor_step (terms : list value) (this : Sequence) (i : nat)
    : Sequence :=
  set_coefficient this (i - 1)
    (_computeCoefficient this (take (i + 1) terms) (of_nat (i + 1))).

(** The object after the first [k] turns of the constructor's loop. *)
Definition constructor_upto (terms : list value) (k : nat) : Sequence :=
  foldl (constructor_step terms)
        (mkSequence terms (replicate (length terms) Undefined))
        (seq 1 k).

Definition constructor (terms : list value) : Sequence :=
  for_up 1 (length terms) (constructor_step terms)
    (mkSequence terms (replicate (length terms) Undefined)).

Definition getNthTerm (this : Sequence) (n : value) : value :=
  _interpolate this (terms this) n.

(** How an expression [new Sequence(...terms)] completes.  The constructor
    has no [throw] statement and calls nothing that throws: array
    allocation with a length taken from an array, [slice], index reads and
    writes, arithmetic. *)
Inductive completion (A : Type) : Type :=
  | Normal (a : A)
  | Throw (message : string).
Arguments Normal {A} a.
Arguments Throw {A} message.

Definition new_Sequence (terms : list value) : completion Sequence :=
  Normal (constructor terms).

(** ** Rendering

    A template literal converts a number to text with the host's
    number-to-string conversion, which the repository does not define; it
    is a parameter here.  [undefined] and [NaN] have fixed renderings.  The
    loop counters are small positive integers and print in decimal. *)
Section rendering.
Variable number_to_string : Qc → string.

Definition toString (v : value) : string :=
  match v with
  | Undefined => "undefined"
  | NaN => "NaN"
  | Num q => number_to_string q
  end.

(** The inner loop of [toFormula] and the statement after it:
    [for (let i = k - 1; i >= 1; i--) factorProduct += `(n-${k - i})`;
     factorProduct += `/${k - 1}!`]. *)
Definition factorProduct (k : nat) : string :=
  let factorProduct :=
    for_down (k - 1) 0
      (λ factorProduct i, factorProduct +:+ "(n-" +:+ pretty (k - i)%nat +:+ ")")
      "" in
  factorProduct +:+ "/" +:+ pretty (k - 1)%nat +:+ "!".

(** [toFormula()], as the string it returns (it also logs that string). *)
Definition toFormula (this : Sequence) : string :=
  let formula := " f(n) = " in
  let formula :=
    for_down (length (terms this)) 1
      (λ formula k,
         let formula :=
           formula +:+ "(" +:+ toString (array_get (terms this) (k - 1))
                   +:+ " - " +:+ toString (array_get (coefficients this) (k - 2))
                   +:+ ")" +:+ factorProduct k in
         if bool_decide (1 < k)%nat then formula +:+ " + " else formula)
      formula in
  formula +:+ toString (array_get (terms this) 0).

(** *** The formula as the specification describes it

    One summand per order [j = k - 1], for [k] from the number of terms
    down to 2: the difference [(t - c)], the factors [(n-1) ... (n-j)]
    and the denominator [j!]; then the constant term. *)
Record summand : Type := mkSummand {
  leading : value;
  known : value;
  order : nat;
}.

Record formula : Type := mkFormula {
  summands : list summand;
  constant : value;
}.

Definition formula_of (this : Sequence) : formula :=
  mkFormula
    ((λ k, mkSummand (array_get (terms this) (k - 1))
                     (array_get (coefficients this) (k - 2))
                     (k - 1))
       <$> reverse (seq 2 (length (terms this) - 1)))
    (array_get (terms this) 0).

Definition render_summand (s : summand) : string :=
  "(" +:+ toString (leading s) +:+ " - " +:+ toString (known s) +:+ ")"
  +:+ String.concat "" ((λ j : nat, "(n-" +:+ pretty j +:+ ")") <$> seq 1 (order s))
  +:+ "/" +:+ pretty (order s) +:+ "!".

Definition render (f : formula) : string :=
  " f(n) = "
  +:+ String.concat " + " ((render_summand <$> summands f) ++ [toString (constant f)]).
End rendering.

(** The arithmetic value of the formula at [n]: each summand is
    [(t - c) * (n-1) * ... * (n-j) / j!] with the mathematical factorial,
    and the summands and the constant are added from left to right. *)
Definition eval_summand (n : value) (s : summand) : value :=
  jsdiv
    (foldl jsmul (jssub (leading s) (known s))
           ((λ j, jssub n (of_nat j)) <$> seq 1 (order s)))
    (of_nat (fact (order s))).

Definition sum_left (l : list value) : value :=
  match l with
  | [] => Undefined
  | x :: l => foldl jsadd x l
  end.

Definition eval_formula (n : value) (f : formula) : value :=
  sum_left ((eval_summand n <$> summands f) ++ [constant f]).

(** A number-to-string conversion for the examples: integers in decimal,
    as JavaScript prints them; other rationals as a fraction. *)
Definition show_Qc (q : Qc) : string :=
  if decide (Qden q = 1%positive) then pretty (Qnum q)
  else pretty (Qnum q) +:+ "/" +:+ pretty (Zpos (Qden q)).

(** The running [result] of the loop of [_interpolate] over [terms] when
    the counter has reached [k], that is after the turns [1 .. k-1]. *)
Definition result_at (this : Sequence) (terms : list value) (n : value)
    (k : nat) : value :=
  for_up 1 k (newton_step this terms n) (array_get terms 0).

(** ** Exact counterparts used in the statements *)

(** The product of a list of rationals, and the product
    [(q-1) * (q-2) * ... * (q-length)]. *)
Definition product (l : list Qc) : Qc := foldr Qcmult 1 l.

Definition falling_product (q : Qc) (length : nat) : Qc :=
  product ((λ j, q - Qn j) <$> seq 1 length).

(** ** sequence.js: [toLatex] *)
Section latex.
Variable number_to_string : Qc → string.

(** [toLatex()].  In the source the backslashes are escaped; the text of
    [fractionTerm] is [\frac{\displaystyle\prod_{k=1}^{j} (n - k)}{j!}]
    with [j = k - 1], and the separator is two backslashes and [" + "]. *)
Definition toLatex (this : Sequence) : string :=
  let formula := " f(n) = " in
  let formula :=
    for_down (length (terms this)) 1
      (λ formula k,
         let fractionTerm :=
           "\frac{\displaystyle\prod_{k=1}^{" +:+ pretty (k - 1)%nat
           +:+ "} (n - k)}{" +:+ pretty (k - 1)%nat +:+ "!}" in
         let formula :=
           formula +:+ "("
                   +:+ toString number_to_string (array_get (terms this) (k - 1))
                   +:+ " - "
                   +:+ toString number_to_string (array_get (coefficients this) (k - 2))
                   +:+ ")" +:+ fractionTerm in
         if bool_decide (1 < k)%nat then formula +:+ "\\ + " else formula)
      formula in
  formula +:+ toString number_to_string (array_get (terms this) 0).

(** The LaTeX text of a formula: each summand as its difference and a
    product-over-factorial fraction, joined by a line break and a plus. *)
Definition render_latex_summand (s : summand) : string :=
  "(" +:+ toString number_to_string (leading s) +:+ " - "
  +:+ toString number_to_string (known s) +:+ ")"
  +:+ "\frac{\displaystyle\prod_{k=1}^{" +:+ pretty (order s)
  +:+ "} (n - k)}{" +:+ pretty (order s) +:+ "!}".

Definition render_latex (f : formula) : string :=
  " f(n) = "
  +:+ String.concat "\\ + "
        ((render_latex_summand <$> summands f)
         ++ [toString number_to_string (constant f)]).
End latex.

(** ** The earlier scripts of the repository

    The file of earlier scripts holds two versions of the page's script.
    The first has the class [Sequence] under the names the page calls
    ([getValueByN], [printInLatex], ...); its class is, statement for
    statement, the class of [sequence.js], so only its helpers are embedded
    here.  The second is older: another [product], a stand-alone [b_n] and
    the class [Succession], whose table is rewritten by every evaluation. *)

Module Part000Sequence.

(** [rval = 1; for (i = 2; i <= num; i++) rval = rval * i]. *)
Definition factorial (num : nat) : value :=
  for_up 2 (S num) (λ rval i, jsmul rval (of_nat i)) (Num 1).

(** [result = 1; for (i = 1; i <= len; i++) result *= n - i]. *)
Definition product (n : value) (len : nat) : value :=
  for_up 1 (S len) (λ result i, jsmul result (jssub n (of_nat i))) (Num 1).

(** [((a2 - a1) * product(n, 1)) / factorial(1) + a1]. *)
Definition b_n2 (a1 a2 : value) (n : value) : value :=
  jsadd (jsdiv (jsmul (jssub a2 a1) (product n 1)) (factorial 1)) a1.

(** [((a3 - b_n2(a1, a2)(n)) * product(n, 2)) / factorial(2) + b_n2(a1, a2)(n)]. *)
Definition b_n3 (a1 a2 a3 : value) (n : value) : value :=
  jsadd (jsdiv (jsmul (jssub a3 (b_n2 a1 a2 n)) (product n 2)) (factorial 2))
        (b_n2 a1 a2 n).

End Part000Sequence.

Module Part000Succession.

Definition factorial (num : nat) : value :=
  for_up 2 (S num) (λ rval i, jsmul rval (of_nat i)) (Num 1).

(** [Array.from({ length: len }, (_, i) => n - i).reduce((a, b) => a * b, 1)]:
    the array of [n - 0, n - 1, ..., n - (len - 1)], multiplied from the
    left starting at 1. *)
Definition product (n : value) (len : nat) : value :=
  foldl (λ a b, jsmul a b) (Num 1) ((λ i, jssub n (of_nat i)) <$> seq 0 len).

Definition b_n2 (a1 a2 : value) (n : value) : value :=
  jsadd (jsdiv (jsmul (jssub a2 a1) (product n 1)) (factorial 1)) a1.

Definition b_n3 (a1 a2 a3 : value) (n : value) : value :=
  jsadd (jsdiv (jsmul (jssub a3 (b_n2 a1 a2 n)) (product n 2)) (factorial 2))
        (b_n2 a1 a2 n).

(** The stand-alone [b_n]:
    [result = args[0];
     for (i = 1; i < args.length; i++)
       result = ((args[i] - result) * product(n, i)) / factorial(i) + result]. *)
Definition b_n (args : list value) (n : value) : value :=
  for_up 1 (length args)
    (λ result i,
       jsadd (jsdiv (jsmul (jssub (array_get args i) result) (product n i))
                    (factorial i))
             result)
    (array_get args 0).

(** The running [result] of the loop of [b_n] when the counter has reached
    [k]. *)
Definition b_n_upto (args : list value) (n : value) (k : nat) : value :=
  for_up 1 k
    (λ result i,
       jsadd (jsdiv (jsmul (jssub (array_get args i) result) (product n i))
                    (factorial i))
             result)
    (array_get args 0).

Record Succession : Type := mkSuccession {
  args : list value;
  b_numbers : list value;
}.

(** [this.b_numbers[i] = v]. *)
Definition set_b_number (this : Succession) (i : nat) (v : value) : Succession :=
  mkSuccession (args this) (array_set (b_numbers this) i v).

(** One turn of the loop of the method [b_n]:
    [this.b_numbers[i] =
       ((args[i] - this.b_numbers[i - 1]) * product(n, i)) / factorial(i)
       + this.b_numbers[i - 1]]. *)
Definition method_step (args : list value) (n : value) (this : Succession)
    (i : nat) : Succession :=
  set_b_number this i
    (jsadd
       (jsdiv
          (jsmul (jssub (array_get args i) (array_get (b_numbers this) (i - 1)))
                 (product n i))
          (factorial i))
       (array_get (b_numbers this) (i - 1))).

(** The method [b_n] of the class: it returns a value and leaves the
    object changed.
    [n = n - 1; this.b_numbers[0] = args[0]; for ...;
     return this.b_numbers[this.b_numbers.length - 1]]. *)
Definition method_b_n (this : Succession) (args : list value) (n : value)
    : value * Succession :=
  let n := jssub n (Num 1) in
  let this := set_b_number this 0 (array_get args 0) in
  let this := for_up 1 (length args) (method_step args n) this in
  (array_get (b_numbers this) (length (b_numbers this) - 1), this).

(** [this.args = args; this.b_numbers = new Array(args.length);
     this.b_n(...args)(args.length)]. *)
Definition constructor (args : list value) : Succession :=
  let this := mkSuccession args (replicate (length args) Undefined) in
  snd (method_b_n this args (of_nat (length args))).

Definition getValueByN (this : Succession) (i : value) : value * Succession :=
  method_b_n this (args this) i.

End Part000Succession.


(** A polynomial in Newton form on the positions 1, 2, 3, ...: the sum of
    [a_k * (q-1) * ... * (q-k)] over the coefficients [a_0, a_1, ...]; and
    the first [m] values of a function at the positions [1 .. m], as
    terms. *)
Definition sumQ (l : list Qc) : Qc := foldr Qcplus 0 l.

Definition newton_form (coeffs : list Qc) (q : Qc) : Qc :=
  sumQ (imap (λ k a, a * falling_product q k) coeffs).

Definition samples (f : Qc → Qc) (m : nat) : list value :=
  (λ j, Num (f (Qn (S j)))) <$> seq 0 m.

(** A list of integer terms, for the examples. *)
Definition ints (l : list Z) : list value := of_Z <$> l.

(** * Checks on the examples of the documentation *)

Example perfect_squares_5 :
  getNthTerm (constructor (ints [1; 4; 9; 16]%Z)) (of_Z 5) = of_Z 25.
Proof. compute_done. Qed.

Example perfect_squares_10 :
  getNthTerm (constructor (ints [1; 4; 9; 16]%Z)) (of_Z 10) = of_Z 100.
Proof. compute_done. Qed.

Example table_10_100_1000 :
  coefficients (constructor (ints [10; 100; 1000]%Z)) = [of_Z 10; of_Z 190; Undefined].
Proof. compute_done. Qed.

Example factorial_5 : factorial 5 = of_Z 120.
Proof. compute_done. Qed.

Example latex_10_100_1000 :
  toLatex show_Qc (constructor (ints [10; 100; 1000]%Z))
  = " f(n) = (1000 - 190)\frac{\displaystyle\prod_{k=1}^{2} (n - k)}{2!}\\ + (100 - 10)\frac{\displaystyle\prod_{k=1}^{1} (n - k)}{1!}\\ + 10".
Proof. vm_compute. reflexivity. Qed.

Example factorial_0 : factorial 0 = of_Z 1.
Proof. compute_done. Qed.

Example fallingFactorial_7_4 : fallingFactorial (of_Z 7) 4 = of_Z 360.
Proof. compute_done. Qed.

Example fallingFactorial_3_1 : fallingFactorial (of_Z 3) 1 = of_Z 2.
Proof. compute_done. Qed.

Example formula_1_4_9 :
  toFormula show_Qc (constructor (ints [1; 4; 9]%Z))
  = " f(n) = (9 - 7)(n-1)(n-2)/2! + (4 - 1)(n-1)/1! + 1".
Proof. vm_compute. reflexivity. Qed.

Example formula_10_100_1000 :
  toFormula show_Qc (constructor (ints [10; 100; 1000]%Z))
  = " f(n) = (1000 - 190)(n-1)(n-2)/2! + (100 - 10)(n-1)/1! + 10".
Proof. vm_compute. reflexivity. Qed.

Example render_10_100_1000 :
  render show_Qc (formula_of (constructor (ints [10; 100; 1000]%Z)))
  = " f(n) = (1000 - 190)(n-1)(n-2)/2! + (100 - 10)(n-1)/1! + 10".
Proof. vm_compute. reflexivity. Qed.

Example eval_10_100_1000 :
  eval_formula (of_Z 4) (formula_of (constructor (ints [10; 100; 1000]%Z)))
  = of_Z 2710.
Proof. compute_done. Qed.

(** * Lemmas *)

(** ** Loops *)

Lemma for_up_nil {St} from bound (body : St → nat → St) init :
  (bound ≤ from)%nat → for_up from bound body init = init.
Proof. intros H. unfold for_up. by replace (bound - from)%nat with 0%nat by lia. Qed.

Lemma for_up_snoc {St} from bound (body : St → nat → St) init :
  (from ≤ bound)%nat →
  for_up from (S bound) body init = body (for_up from bound body init) bound.
Proof.
  intros H. unfold for_up.
  replace (S bound - from)%nat with (S (bound - from)) by lia.
  rewrite seq_S, foldl_snoc. f_equal. lia.
Qed.

Lemma for_up_ext {St} from bound (f g : St → nat → St) init :
  (∀ s i, (from ≤ i < bound)%nat → f s i = g s i) →
  for_up from bound f init = for_up from bound g init.
Proof.
  induction bound as [|bound IH]; intros Hfg.
  - by rewrite !for_up_nil by lia.
  - destruct (decide (from ≤ bound)%nat) as [Hle|Hgt].
    + rewrite !for_up_snoc by done. rewrite IH.
      * apply Hfg. lia.
      * intros s i Hi. apply Hfg. lia.
    + by rewrite !for_up_nil by lia.
Qed.

(** ** Arithmetic *)


Lemma Qn_S i : Qn (S i) = Qn i + 1.
Proof. unfold Qn. by rewrite Nat2Z.inj_succ, <-Z.add_1_r, Z2Qc_inj_add, Z2Qc_inj_1. Qed.




Lemma product_snoc l x : product (l ++ [x]) = product l * x.
Proof.
  unfold product. induction l as [|y l IH]; simpl.
  - ring.
  - rewrite IH. ring.
Qed.

Lemma falling_product_S q k :
  falling_product q (S k) = falling_product q k * (q - Qn (S k)).
Proof. unfold falling_product. rewrite seq_S, fmap_app. simpl fmap. by rewrite product_snoc. Qed.

(** ** utils.js *)




Lemma fallingFactorial_0 n : fallingFactorial n 0 = Num 1.
Proof. unfold fallingFactorial. by rewrite for_up_nil by lia. Qed.

Lemma fallingFactorial_S n k :
  fallingFactorial n (S k) = jsmul (fallingFactorial n k) (jssub n (of_nat (S k))).
Proof. unfold fallingFactorial. by rewrite for_up_snoc by lia. Qed.

Lemma fallingFactorial_Num q k :
  fallingFactorial (Num q) k = Num (falling_product q k).
Proof.
  induction k as [|k IH].
  - by rewrite fallingFactorial_0.
  - by rewrite fallingFactorial_S, IH, falling_product_S.
Qed.

(** ** Arrays *)

Lemma array_get_set_eq a i v :
  (i < length a)%nat → array_get (array_set a i v) i = v.
Proof.
  intros H. unfold array_get, array_set. rewrite decide_True by done.
  by rewrite list_lookup_insert_eq.
Qed.

Lemma array_get_set_ne a i j v :
  (i < length a)%nat → i ≠ j → array_get (array_set a i v) j = array_get a j.
Proof.
  intros H Hne. unfold array_get, array_set. rewrite decide_True by done.
  by rewrite list_lookup_insert_ne.
Qed.

Lemma length_array_set a i v :
  (i < length a)%nat → length (array_set a i v) = length a.
Proof.
  intros H. unfold array_set. rewrite decide_True by done. apply length_insert.
Qed.

Lemma array_get_take (l : list value) k i :
  (i < k)%nat → array_get (take k l) i = array_get l i.
Proof. intros H. unfold array_get. by rewrite lookup_take_lt. Qed.


Lemma array_get_ge (l : list value) i : (length l ≤ i)%nat → array_get l i = Undefined.
Proof. intros H. unfold array_get. by rewrite lookup_ge_None_2. Qed.


(** ** The loops of [_interpolate] and [_computeCoefficient] *)

Lemma interpolate_result_at this ts n :
  _interpolate this ts n = result_at this ts n (length ts).
Proof. reflexivity. Qed.

Lemma result_at_1 this ts n : result_at this ts n 1 = array_get ts 0.
Proof. unfold result_at. by rewrite for_up_nil by lia. Qed.

Lemma result_at_S this ts n k :
  (1 ≤ k)%nat →
  result_at this ts n (S k) = newton_step this ts n (result_at this ts n k) k.
Proof. intros H. unfold result_at. by rewrite for_up_snoc by lia. Qed.

(** The running result at [k] reads the terms below [k] and the
    coefficient slots below [k - 1] only. *)
Lemma result_at_ext this that ts ts' n k :
  array_get ts 0 = array_get ts' 0 →
  (∀ i, (1 ≤ i < k)%nat → array_get ts i = array_get ts' i) →
  (∀ i, (1 ≤ i < k)%nat →
     array_get (coefficients this) (i - 1) = array_get (coefficients that) (i - 1)) →
  result_at this ts n k = result_at that ts' n k.
Proof.
  intros H0 Hts Hcs. unfold result_at. rewrite H0.
  apply for_up_ext. intros r i Hi. unfold newton_step.
  by rewrite Hts, Hcs.
Qed.

Lemma interpolate_take this ts n k :
  (1 ≤ k ≤ length ts)%nat →
  _interpolate this (take k ts) n = result_at this ts n k.
Proof.
  intros Hk. rewrite interpolate_result_at, length_take_le by lia.
  apply result_at_ext; [|intros i Hi ..|done].
  - apply array_get_take. lia.
  - apply array_get_take. lia.
Qed.

Lemma computeCoefficient_loop_below this ts n b :
  (1 ≤ b ≤ length ts - 1)%nat →
  for_up 1 b
    (λ '(result, coefficient) i,
       let result := newton_step this ts n result i in
       let coefficient :=
         if bool_decide (i < length ts - 1)%nat then result else coefficient in
       (result, coefficient))
    (array_get ts 0, array_get ts 0)
  = (result_at this ts n b, result_at this ts n b).
Proof.
  induction b as [|b IH]; intros Hb; [lia|].
  destruct (decide (b = 0%nat)) as [->|Hne].
  - rewrite for_up_nil by lia. by rewrite result_at_1.
  - rewrite for_up_snoc by lia. rewrite IH by lia. simpl.
    rewrite bool_decide_eq_true_2 by lia. by rewrite result_at_S by lia.
Qed.

Lemma computeCoefficient_loop_spec this ts n :
  (2 ≤ length ts)%nat →
  computeCoefficient_loop this ts n
  = (result_at this ts n (length ts), result_at this ts n (length ts - 1)).
Proof.
  intros HL. unfold computeCoefficient_loop.
  replace (length ts) with (S (length ts - 1)) at 1 by lia.
  rewrite for_up_snoc by lia.
  rewrite computeCoefficient_loop_below by lia. simpl.
  rewrite bool_decide_eq_false_2 by lia.
  rewrite <-result_at_S by lia. by replace (S (length ts - 1)) with (length ts) by lia.
Qed.

(** ** The constructor *)

Lemma constructor_eq ts : constructor ts = constructor_upto ts (length ts - 1).
Proof. reflexivity. Qed.

Lemma constructor_upto_S ts k :
  constructor_upto ts (S k) = constructor_step ts (constructor_upto ts k) (S k).
Proof. unfold constructor_upto. by rewrite seq_S, foldl_snoc. Qed.

Lemma constructor_upto_terms ts k : terms (constructor_upto ts k) = ts.
Proof. induction k as [|k IH]; [done|]. by rewrite constructor_upto_S. Qed.

Lemma constructor_upto_length ts k :
  (k ≤ length ts)%nat → length (coefficients (constructor_upto ts k)) = length ts.
Proof.
  induction k as [|k IH]; intros Hk.
  - apply length_replicate.
  - rewrite constructor_upto_S. simpl.
    rewrite length_array_set; rewrite IH by lia; [done|lia].
Qed.


(** A slot is written once: later turns leave it alone. *)
Lemma constructor_upto_stable ts k k' j :
  (j < k)%nat → (k ≤ k')%nat → (k' ≤ length ts)%nat →
  array_get (coefficients (constructor_upto ts k')) j
  = array_get (coefficients (constructor_upto ts k)) j.
Proof.
  intros Hj Hk. induction Hk as [|k' Hk IH]; intros Hlen; [done|].
  rewrite constructor_upto_S. simpl.
  rewrite array_get_set_ne; [apply IH; lia| |lia].
  rewrite constructor_upto_length; lia.
Qed.

Lemma constructor_upto_written ts k :
  (S k ≤ length ts)%nat →
  array_get (coefficients (constructor_upto ts (S k))) k
  = _computeCoefficient (constructor_upto ts k) (take (S k + 1) ts) (of_nat (S k + 1)).
Proof.
  intros Hk. rewrite constructor_upto_S. unfold constructor_step, set_coefficient.
  cbn [coefficients]. replace (S k - 1)%nat with k by lia.
  apply array_get_set_eq. rewrite constructor_upto_length; lia.
Qed.

(** The coefficient in slot [k] is the running result of the interpolation
    loop over the final table, at position [k + 2], when the counter has
    reached [k + 1]. *)
Lemma coefficient_result_at ts k :
  (S (S k) ≤ length ts)%nat →
  array_get (coefficients (constructor ts)) k
  = result_at (constructor ts) ts (of_nat (k + 2)) (S k).
Proof.
  intros Hk. rewrite constructor_eq.
  rewrite (constructor_upto_stable ts (S k)) by lia.
  rewrite constructor_upto_written by lia.
  unfold _computeCoefficient.
  rewrite computeCoefficient_loop_spec by (rewrite length_take_le; lia).
  cbn [snd]. rewrite length_take_le by lia.
  replace (S k + 1 - 1)%nat with (S k) by lia.
  replace (S k + 1)%nat with (k + 2)%nat by lia.
  apply result_at_ext.
  - apply array_get_take. lia.
  - intros i Hi. apply array_get_take. lia.
  - intros i Hi. symmetry. apply constructor_upto_stable; lia.
Qed.

(** ** The falling product at integer positions *)






(** ** The loop body on finite numbers *)





Lemma array_get_lookup (l : list value) i :
  (i < length l)%nat → l !! i = Some (array_get l i).
Proof.
  intros Hi. unfold array_get.
  by destruct (lookup_lt_is_Some_2 l i Hi) as [v ->].
Qed.

Lemma constructor_terms ts : terms (constructor ts) = ts.
Proof. rewrite constructor_eq. apply constructor_upto_terms. Qed.

Lemma constructor_length ts : length (coefficients (constructor ts)) = length ts.
Proof. rewrite constructor_eq. apply constructor_upto_length. lia. Qed.


(** A coefficient is determined by the terms up to the one its turn passes
    to [_computeCoefficient]. *)
Lemma coefficient_prefix ts k p :
  (S (S k) ≤ p ≤ length ts)%nat →
  array_get (coefficients (constructor (take p ts))) k
  = array_get (coefficients (constructor ts)) k.
Proof.
  revert p. induction k as [k IH] using lt_wf_ind. intros p Hp.
  rewrite !coefficient_result_at by (rewrite ?length_take_le; lia).
  apply result_at_ext.
  - apply array_get_take. lia.
  - intros i Hi. apply array_get_take. lia.
  - intros i Hi. apply IH; lia.
Qed.

(** * The properties of the engine *)



(** C2. Coefficient construction: with [m >= 2] terms and [k] in
    [1 .. m-1], the stored coefficient [c[k-1]] is the value at [n = k+1]
    of the interpolation loop over the prefix [t[0..k-1]], run on the
    coefficients known when the turn starts (and so on the final table as
    well); it is the [coefficient] variable of [_computeCoefficient], taken
    before the turn that would bring in [t[k]], while the fully updated
    [result] is another component of the loop's state. *)
Theorem coefficient_construction (ts : list value) (k : nat) :
  (2 ≤ length ts)%nat → (1 ≤ k ≤ length ts - 1)%nat →
  let c := array_get (coefficients (constructor ts)) (k - 1) in
  coefficients (constructor ts) !! (k - 1)%nat = Some c
  ∧ c = _interpolate (constructor_upto ts (k - 1)) (take k ts) (of_nat (k + 1))
  ∧ c = _interpolate (constructor ts) (take k ts) (of_nat (k + 1))
  ∧ computeCoefficient_loop (constructor_upto ts (k - 1)) (take (k + 1) ts)
        (of_nat (k + 1))
    = (newton_step (constructor_upto ts (k - 1)) (take (k + 1) ts)
         (of_nat (k + 1)) c k, c).
Proof.
  intros Hm Hk c.
  assert (c = result_at (constructor ts) ts (of_nat (k + 1)) k) as Hc.
  { unfold c. rewrite coefficient_result_at by lia.
    replace (S (k - 1)) with k by lia.
    by replace (k - 1 + 2)%nat with (k + 1)%nat by lia. }
  assert (c = result_at (constructor_upto ts (k - 1)) ts (of_nat (k + 1)) k) as Hc'.
  { rewrite Hc. apply result_at_ext; [done..|].
    intros i Hi. rewrite constructor_eq. apply constructor_upto_stable; lia. }
  split; [|split; [|split]].
  - apply array_get_lookup. rewrite constructor_length. lia.
  - rewrite interpolate_take by lia. exact Hc'.
  - rewrite interpolate_take by lia. exact Hc.
  - rewrite computeCoefficient_loop_spec by (rewrite length_take_le; lia).
    rewrite length_take_le by lia.
    replace (k + 1 - 1)%nat with k by lia.
    replace (k + 1)%nat with (S k) at 3 by lia.
    rewrite result_at_S by lia.
    assert (result_at (constructor_upto ts (k - 1)) (take (k + 1) ts)
              (of_nat (k + 1)) k = c) as ->; [|done].
    rewrite Hc'. apply result_at_ext; [|intros i Hi|done].
    + apply array_get_take. lia.
    + apply array_get_take. lia.
Qed.

Lemma coefficient_construction_witness :
  (2 ≤ length (ints [10; 100; 1000]%Z))%nat
  ∧ (1 ≤ 2 ≤ length (ints [10; 100; 1000]%Z) - 1)%nat
  ∧ (let ts := ints [10; 100; 1000]%Z in
     let c := array_get (coefficients (constructor ts)) (2 - 1) in
     coefficients (constructor ts) !! (2 - 1)%nat = Some c
     ∧ c = _interpolate (constructor_upto ts (2 - 1)) (take 2 ts) (of_nat (2 + 1))
     ∧ c = _interpolate (constructor ts) (take 2 ts) (of_nat (2 + 1))
     ∧ computeCoefficient_loop (constructor_upto ts (2 - 1)) (take (2 + 1) ts)
           (of_nat (2 + 1))
       = (newton_step (constructor_upto ts (2 - 1)) (take (2 + 1) ts)
            (of_nat (2 + 1)) c 2, c)).
Proof.
  assert (2 ≤ length (ints [10; 100; 1000]%Z))%nat as Hm by (simpl; lia).
  assert (1 ≤ 2 ≤ length (ints [10; 100; 1000]%Z) - 1)%nat as Hk by (simpl; lia).
  split; [exact Hm|]. split; [exact Hk|].
  exact (coefficient_construction (ints [10; 100; 1000]%Z) 2 Hm Hk).
Defined.

(** C3, as the specification states it, fails: constructing an engine from
    the empty list of terms does not fail.  No message is thrown, the one
    the specification names included. *)
Lemma zero_terms_construction_does_not_fail :
  new_Sequence [] ≠ Throw "at least one term required"
  ∧ ¬ ∃ message, new_Sequence [] = Throw message.
Proof. split; [discriminate|]. intros [message H]. discriminate. Qed.

(** C3, amended. Constructing an engine from the empty list of terms
    completes normally: the instance has no terms and an empty coefficient
    table, [getNthTerm] returns [undefined] at every [n], and [toFormula]
    prints the missing first term as [undefined]. *)
Theorem zero_terms_construction (number_to_string : Qc → string) :
  new_Sequence [] = Normal (mkSequence [] [])
  ∧ (∀ n, getNthTerm (mkSequence [] []) n = Undefined)
  ∧ toFormula number_to_string (mkSequence [] []) = " f(n) = undefined".
Proof. by repeat split. Qed.




(** C5. Single-term constant: the engine constructed from the single term
    [t] returns [t] from [getNthTerm(n)] whatever [n] is. *)
Theorem single_term_constant (t n : value) :
  getNthTerm (constructor [t]) n = t.
Proof. reflexivity. Qed.

(** C9. [fallingFactorial(n, length)] is the product
    [(n-1) * (n-2) * ... * (n-length)] for every finite [n] and every
    natural [length]; it is 1 for [length = 0], whatever [n] is; and
    [fallingFactorial(5, 3)] is 24. *)
Theorem fallingFactorial_spec :
  (∀ (q : Qc) (length : nat),
     fallingFactorial (Num q) length
     = Num (product ((λ j, q - Qn j) <$> seq 1 length)))
  ∧ (∀ n : value, fallingFactorial n 0 = Num 1)
  ∧ fallingFactorial (of_Z 5) 3 = of_Z 24.
Proof.
  split; [|split].
  - intros q length. apply fallingFactorial_Num.
  - apply fallingFactorial_0.
  - compute_done.
Qed.





(** ** Strings and descending loops *)

Lemma string_app_nil_l (b : string) : "" +:+ b = b.
Proof. reflexivity. Qed.

Lemma string_app_cons x (a b : string) : String x a +:+ b = String x (a +:+ b).
Proof. reflexivity. Qed.

Lemma string_app_assoc (a b c : string) : (a +:+ b) +:+ c = a +:+ b +:+ c.
Proof.
  induction a as [|x a IH]; [done|]. rewrite !string_app_cons. by rewrite IH.
Qed.

Lemma string_app_nil_r (a : string) : a +:+ "" = a.
Proof.
  induction a as [|x a IH]; [done|]. rewrite string_app_cons. by rewrite IH.
Qed.

Lemma string_concat_cons sep (x y : string) (l : list string) :
  String.concat sep (x :: y :: l) = x +:+ sep +:+ String.concat sep (y :: l).
Proof. reflexivity. Qed.

Lemma foldl_ext_in {A B} (f g : A → B → A) (l : list B) (a : A) :
  (∀ a b, b ∈ l → f a b = g a b) → foldl f a l = foldl g a l.
Proof.
  revert a. induction l as [|b l IH]; intros a Hfg; [done|]. simpl.
  rewrite (Hfg a b) by apply list_elem_of_here.
  apply IH. intros a' b' Hb'. apply Hfg. by apply list_elem_of_further.
Qed.

Lemma foldl_append_concat (l : list string) (pre : string) :
  foldl String.append pre l = pre +:+ String.concat "" l.
Proof.
  revert pre. induction l as [|x l IH]; intros pre; simpl foldl.
  - by rewrite string_app_nil_r.
  - rewrite IH. destruct l as [|y l].
    + simpl String.concat. by rewrite string_app_nil_r.
    + rewrite string_concat_cons, string_app_nil_l.
      by rewrite string_app_assoc.
Qed.

(** Appending each item followed by the separator, then a last item, is
    joining the items and the last one with the separator. *)
Lemma foldl_append_join (sep last : string) (l : list string) (pre : string) :
  foldl (λ acc x, (acc +:+ x) +:+ sep) pre l +:+ last
  = pre +:+ String.concat sep (l ++ [last]).
Proof.
  revert pre. induction l as [|x l IH]; intros pre; [done|].
  simpl foldl. rewrite IH.
  destruct (l ++ [last]) as [|y l'] eqn:E.
  - by destruct l.
  - change ((x :: l) ++ [last]) with (x :: (l ++ [last])). rewrite E.
    rewrite string_concat_cons. by rewrite !string_app_assoc.
Qed.

(** Counting [i] down from [len] to 1, [S len - i] counts up from 1. *)
Lemma countdown_complement len :
  (λ i, S len - i)%nat <$> reverse (seq 1 len) = seq 1 len.
Proof.
  induction len as [|len IH]; [done|].
  rewrite seq_S at 1. rewrite reverse_snoc, fmap_cons.
  replace (S (S len) - (1 + len))%nat with 1%nat by lia.
  change (seq 1 (S len)) with (1%nat :: seq 2 len). f_equal.
  trans (S <$> ((λ i, S len - i)%nat <$> reverse (seq 1 len)));
    [|by rewrite IH, fmap_S_seq].
  rewrite <-list_fmap_compose.
  apply list_fmap_ext. intros j i Hi. simpl.
  apply list_elem_of_lookup_2, elem_of_reverse, elem_of_seq in Hi. lia.
Qed.

(** ** Rendering *)

Lemma factorProduct_spec k :
  (1 ≤ k)%nat →
  factorProduct k
  = String.concat "" ((λ j : nat, "(n-" +:+ pretty j +:+ ")") <$> seq 1 (k - 1))
    +:+ "/" +:+ pretty (k - 1)%nat +:+ "!".
Proof.
  intros Hk. unfold factorProduct, for_down.
  rewrite Nat.sub_0_r. f_equal.
  rewrite <-(string_app_nil_l (String.concat _ _)), <-foldl_append_concat.
  rewrite <-(countdown_complement (k - 1)) at 2.
  rewrite <-list_fmap_compose, foldl_fmap.
  apply foldl_ext_in. intros acc i Hi. simpl.
  by replace (S (k - 1) - i)%nat with (k - i)%nat by lia.
Qed.

(** C7. The structure of [toFormula()]: the string is [" f(n) = "],
    followed by one summand for each [k] from the number of terms down to
    2, written as the difference [(t[k-1] - c[k-2])], the factors [(n-j)]
    for [j = 1 .. k-1] and the denominator [/(k-1)!], the summands and the
    closing constant [t[0]] being joined by [" + "], with nothing after
    the constant. *)
Theorem toFormula_structure (number_to_string : Qc → string) (this : Sequence) :
  toFormula number_to_string this
  = " f(n) = "
    +:+ String.concat " + "
          (((λ k : nat,
               "(" +:+ toString number_to_string (array_get (terms this) (k - 1))
               +:+ " - "
               +:+ toString number_to_string (array_get (coefficients this) (k - 2))
               +:+ ")"
               +:+ String.concat ""
                     ((λ j : nat, "(n-" +:+ pretty j +:+ ")") <$> seq 1 (k - 1))
               +:+ "/" +:+ pretty (k - 1)%nat +:+ "!")
              <$> reverse (seq 2 (length (terms this) - 1)))
           ++ [toString number_to_string (array_get (terms this) 0)])
  ∧ toFormula number_to_string this
    = render number_to_string (formula_of this).
Proof.
  assert (toFormula number_to_string this
          = render number_to_string (formula_of this)) as Hrender.
  { unfold toFormula, render, for_down, formula_of. cbn [summands constant].
    rewrite <-foldl_append_join, <-list_fmap_compose, foldl_fmap. f_equal.
    apply foldl_ext_in. intros acc k Hk.
    apply elem_of_reverse, elem_of_seq in Hk.
    rewrite bool_decide_eq_true_2 by lia. f_equal. f_equal.
    unfold render_summand, compose. cbn [leading known order].
    by rewrite factorProduct_spec by lia. }
  split; [|exact Hrender].
  rewrite Hrender. unfold render, formula_of. cbn [summands constant].
  by rewrite <-list_fmap_compose.
Qed.

(** ** The value of the formula *)






Lemma fallingFactorial_fold n k :
  fallingFactorial n k
  = foldl jsmul (Num 1) ((λ j, jssub n (of_nat j)) <$> seq 1 k).
Proof.
  unfold fallingFactorial, for_up.
  replace (S k - 1)%nat with k by lia. by rewrite foldl_fmap.
Qed.




(** * Further properties *)

(** ** Engines built on a prefix of the terms *)

Lemma result_at_prefix_engine ts p n k :
  (1 ≤ k ≤ p)%nat → (p ≤ length ts)%nat →
  result_at (constructor (take p ts)) (take p ts) n k
  = result_at (constructor ts) ts n k.
Proof.
  intros Hk Hp. apply result_at_ext.
  - apply array_get_take. lia.
  - intros i Hi. apply array_get_take. lia.
  - intros i Hi. apply coefficient_prefix. lia.
Qed.

Lemma getNthTerm_take ts p n :
  (1 ≤ p ≤ length ts)%nat →
  getNthTerm (constructor (take p ts)) n = result_at (constructor ts) ts n p.
Proof.
  intros Hp. unfold getNthTerm.
  rewrite constructor_terms, interpolate_result_at, length_take_le by lia.
  apply result_at_prefix_engine; lia.
Qed.

Lemma getNthTerm_result_at ts n :
  getNthTerm (constructor ts) n = result_at (constructor ts) ts n (length ts).
Proof. unfold getNthTerm. by rewrite constructor_terms. Qed.

(** The engine on [ts ++ [t]] adds one turn of the loop to the engine on
    [ts]. *)
Lemma getNthTerm_snoc ts t n :
  (1 ≤ length ts)%nat →
  getNthTerm (constructor (ts ++ [t])) n
  = jsadd
      (jsdiv
         (jsmul (jssub t (getNthTerm (constructor ts) (of_nat (length ts + 1))))
                (fallingFactorial n (length ts)))
         (factorial (length ts)))
      (getNthTerm (constructor ts) n).
Proof.
  intros Hm.
  assert (∀ n', getNthTerm (constructor ts) n'
                = result_at (constructor (ts ++ [t])) (ts ++ [t]) n' (length ts))
    as Hold.
  { intros n'. rewrite <-(getNthTerm_take (ts ++ [t]) (length ts))
      by (rewrite length_app; simpl; lia).
    by rewrite take_app_length. }
  rewrite (getNthTerm_result_at (ts ++ [t])), length_app. simpl length.
  replace (length ts + 1)%nat with (S (length ts)) by lia.
  rewrite result_at_S by lia. unfold newton_step.
  rewrite coefficient_result_at by (rewrite length_app; simpl; lia).
  replace (S (length ts - 1)) with (length ts) by lia.
  replace (length ts - 1 + 2)%nat with (S (length ts)) by lia.
  rewrite <-!Hold. do 4 f_equal.
  unfold array_get. by rewrite list_lookup_middle.
Qed.




(** ** utils.js *)






Lemma fallingFactorial_NaN n length :
  ¬ is_finite n → (1 ≤ length)%nat → fallingFactorial n length = NaN.
Proof.
  intros Hn Hlen. destruct length as [|len]; [lia|].
  rewrite fallingFactorial_S.
  destruct n as [| |q]; [| |destruct Hn; by exists q];
    by destruct (fallingFactorial _ len).
Qed.

(** X5. With a position that is not a finite number ([undefined] or
    [NaN]) and at least one factor, [fallingFactorial] returns [NaN]. *)
Theorem fallingFactorial_not_finite (n : value) (length : nat) :
  ¬ is_finite n → (1 ≤ length)%nat → fallingFactorial n length = NaN.
Proof. apply fallingFactorial_NaN. Qed.

Lemma fallingFactorial_not_finite_witness :
  ¬ is_finite Undefined ∧ (1 ≤ 2)%nat ∧ fallingFactorial Undefined 2 = NaN.
Proof.
  assert (¬ is_finite Undefined) as Hn by (intros [q Hq]; discriminate).
  assert (1 ≤ 2)%nat as Hlen by lia.
  split; [exact Hn|]. split; [exact Hlen|].
  exact (fallingFactorial_not_finite Undefined 2 Hn Hlen).
Defined.

(** ** What is not a finite number *)

Lemma newton_step_not_finite_result this ts n r i :
  ¬ is_finite r → newton_step this ts n r i = NaN.
Proof.
  intros Hr. unfold newton_step.
  destruct r as [| |q]; [| |destruct Hr; by exists q];
    by destruct (jsdiv _ _).
Qed.

Lemma newton_step_not_finite_term this ts n r i :
  ¬ is_finite (array_get ts i) → newton_step this ts n r i = NaN.
Proof.
  intros Ht. unfold newton_step.
  by destruct (array_get ts i) as [| |q]; [| |destruct Ht; by exists q].
Qed.

Lemma newton_step_not_finite_position this ts n r i :
  ¬ is_finite n → (1 ≤ i)%nat → newton_step this ts n r i = NaN.
Proof.
  intros Hn Hi. unfold newton_step.
  rewrite (fallingFactorial_NaN n i Hn Hi).
  by destruct (jssub _ _).
Qed.

(** Once the running result is [NaN] it stays [NaN]. *)
Lemma result_at_NaN_onwards this ts n k0 k :
  (1 ≤ k0 ≤ k)%nat → result_at this ts n k0 = NaN → result_at this ts n k = NaN.
Proof.
  intros [Hk0 Hk] H0. induction Hk as [|k Hk IH]; [done|].
  rewrite result_at_S by lia. apply newton_step_not_finite_result.
  rewrite IH. intros [q Hq]. discriminate.
Qed.

(** ** sequence.js: evaluation *)



(** X7. A term that is not a finite number poisons every value: with at
    least two terms, one of which is [undefined] or [NaN], [getNthTerm]
    returns [NaN] at every position, whatever the coefficient table
    holds.  Nothing is thrown. *)
Theorem getNthTerm_NaN_term (this : Sequence) (n : value) (j : nat) :
  (2 ≤ length (terms this))%nat → (j < length (terms this))%nat →
  ¬ is_finite (array_get (terms this) j) →
  getNthTerm this n = NaN.
Proof.
  intros Hm Hj Ht. unfold getNthTerm. rewrite interpolate_result_at.
  apply (result_at_NaN_onwards _ _ _ (S (max j 1))); [lia|].
  rewrite result_at_S by lia.
  destruct (decide (j = 0%nat)) as [->|Hne].
  - change (max 0 1) with 1%nat. rewrite result_at_1.
    by apply newton_step_not_finite_result.
  - replace (max j 1) with j by lia. by apply newton_step_not_finite_term.
Qed.

Lemma getNthTerm_NaN_term_witness :
  (2 ≤ length (terms (constructor [of_Z 1; NaN; of_Z 9])))%nat
  ∧ (1 < length (terms (constructor [of_Z 1; NaN; of_Z 9])))%nat
  ∧ ¬ is_finite (array_get (terms (constructor [of_Z 1; NaN; of_Z 9])) 1)
  ∧ getNthTerm (constructor [of_Z 1; NaN; of_Z 9]) (of_Z 1) = NaN.
Proof.
  assert (2 ≤ length (terms (constructor [of_Z 1; NaN; of_Z 9])))%nat as Hm
    by (simpl; lia).
  assert (1 < length (terms (constructor [of_Z 1; NaN; of_Z 9])))%nat as Hj
    by (simpl; lia).
  assert (¬ is_finite (array_get (terms (constructor [of_Z 1; NaN; of_Z 9])) 1))
    as Ht by (intros [q Hq]; discriminate).
  split; [exact Hm|]. split; [exact Hj|]. split; [exact Ht|].
  exact (getNthTerm_NaN_term _ (of_Z 1) 1 Hm Hj Ht).
Defined.

(** X8. A position that is not a finite number gives [NaN]: with at least
    two terms, [getNthTerm(undefined)] and [getNthTerm(NaN)] are [NaN]
    (with one term the single term is returned instead). *)
Theorem getNthTerm_NaN_position (this : Sequence) (n : value) :
  (2 ≤ length (terms this))%nat → ¬ is_finite n → getNthTerm this n = NaN.
Proof.
  intros Hm Hn. unfold getNthTerm. rewrite interpolate_result_at.
  apply (result_at_NaN_onwards _ _ _ 2); [lia|].
  rewrite result_at_S by lia. by apply newton_step_not_finite_position.
Qed.

Lemma getNthTerm_NaN_position_witness :
  (2 ≤ length (terms (constructor (ints [2; 4; 6]%Z))))%nat
  ∧ ¬ is_finite Undefined
  ∧ getNthTerm (constructor (ints [2; 4; 6]%Z)) Undefined = NaN.
Proof.
  assert (2 ≤ length (terms (constructor (ints [2; 4; 6]%Z))))%nat as Hm
    by (simpl; lia).
  assert (¬ is_finite Undefined) as Hn by (intros [q Hq]; discriminate).
  split; [exact Hm|]. split; [exact Hn|].
  exact (getNthTerm_NaN_position _ Undefined Hm Hn).
Defined.

(** ** sequence.js: construction *)

(** X9. Each stored coefficient is a prediction: [c[k]] is what the engine
    built from the first [k + 1] terms returns at position [k + 2], the
    position of the next term. *)
Theorem coefficient_is_prediction (ts : list value) (k : nat) :
  (k + 2 ≤ length ts)%nat →
  coefficients (constructor ts) !! k
  = Some (getNthTerm (constructor (take (k + 1) ts)) (of_nat (k + 2))).
Proof.
  intros Hk. rewrite getNthTerm_take by lia.
  replace (k + 1)%nat with (S k) by lia.
  rewrite <-coefficient_result_at by lia.
  apply array_get_lookup. rewrite constructor_length. lia.
Qed.

Lemma coefficient_is_prediction_witness :
  (1 + 2 ≤ length (ints [10; 100; 1000]%Z))%nat
  ∧ coefficients (constructor (ints [10; 100; 1000]%Z)) !! 1%nat
    = Some (getNthTerm (constructor (take (1 + 1) (ints [10; 100; 1000]%Z)))
              (of_nat (1 + 2))).
Proof.
  assert (1 + 2 ≤ length (ints [10; 100; 1000]%Z))%nat as Hk by (simpl; lia).
  split; [exact Hk|]. exact (coefficient_is_prediction _ 1 Hk).
Defined.

(** X10. Appending a term adds one summand: the engine on [ts ++ [t]]
    returns the value of the engine on [ts] plus
    [(t - p) * fallingFactorial(n, m) / factorial(m)], where [m] is the
    number of terms of [ts] and [p] is what the engine on [ts] predicts
    for position [m + 1]. *)
Theorem appending_a_term (ts : list value) (t n : value) :
  (1 ≤ length ts)%nat →
  getNthTerm (constructor (ts ++ [t])) n
  = jsadd
      (jsdiv
         (jsmul (jssub t (getNthTerm (constructor ts) (of_nat (length ts + 1))))
                (fallingFactorial n (length ts)))
         (factorial (length ts)))
      (getNthTerm (constructor ts) n).
Proof. apply getNthTerm_snoc. Qed.

Lemma appending_a_term_witness :
  (1 ≤ length (ints [1; 4]%Z))%nat
  ∧ getNthTerm (constructor (ints [1; 4]%Z ++ [of_Z 9])) (of_Z 5)
    = jsadd
        (jsdiv
           (jsmul (jssub (of_Z 9)
                     (getNthTerm (constructor (ints [1; 4]%Z))
                        (of_nat (length (ints [1; 4]%Z) + 1))))
                  (fallingFactorial (of_Z 5) (length (ints [1; 4]%Z))))
           (factorial (length (ints [1; 4]%Z))))
        (getNthTerm (constructor (ints [1; 4]%Z)) (of_Z 5)).
Proof.
  assert (1 ≤ length (ints [1; 4]%Z))%nat as Hm by (simpl; lia).
  split; [exact Hm|]. exact (appending_a_term _ (of_Z 9) (of_Z 5) Hm).
Defined.



(** ** sequence.js: families of sequences *)







(** ** sequence.js: [toLatex] *)

(** X14. The structure of [toLatex()]: after [" f(n) = "] it prints, for
    each [k] from the number of terms down to 2, the difference
    [(t[k-1] - c[k-2])] followed by the fraction
    [\frac{\displaystyle\prod_{k=1}^{k-1} (n - k)}{(k-1)!}], then the
    constant [t[0]], joined by two backslashes and [" + "]; these are the
    summands of the formula that [toFormula()] prints, in the same
    order. *)
Theorem toLatex_structure (number_to_string : Qc → string) (this : Sequence) :
  toLatex number_to_string this
  = " f(n) = "
    +:+ String.concat "\\ + "
          (((λ k : nat,
               "(" +:+ toString number_to_string (array_get (terms this) (k - 1))
               +:+ " - "
               +:+ toString number_to_string (array_get (coefficients this) (k - 2))
               +:+ ")"
               +:+ "\frac{\displaystyle\prod_{k=1}^{" +:+ pretty (k - 1)%nat
               +:+ "} (n - k)}{" +:+ pretty (k - 1)%nat +:+ "!}")
              <$> reverse (seq 2 (length (terms this) - 1)))
           ++ [toString number_to_string (array_get (terms this) 0)])
  ∧ toLatex number_to_string this
    = render_latex number_to_string (formula_of this).
Proof.
  assert (toLatex number_to_string this
          = render_latex number_to_string (formula_of this)) as Hrender.
  { unfold toLatex, render_latex, for_down, formula_of. cbn [summands constant].
    rewrite <-foldl_append_join, <-list_fmap_compose, foldl_fmap. f_equal.
    apply foldl_ext_in. intros acc k Hk.
    apply elem_of_reverse, elem_of_seq in Hk.
    by rewrite bool_decide_eq_true_2 by lia. }
  split; [|exact Hrender].
  rewrite Hrender. unfold render_latex, formula_of. cbn [summands constant].
  by rewrite <-list_fmap_compose.
Qed.

(** * The earlier scripts *)

(** ** The first script: [b_n2] and [b_n3] *)










(** ** The second script: [product] and the stand-alone [b_n] *)


Lemma jssub_pred n i :
  jssub (jssub n (Num 1)) (of_nat i) = jssub n (of_nat (S i)).
Proof.
  destruct n as [| |q]; try done. unfold of_nat. simpl. f_equal.
  rewrite Qn_S. ring.
Qed.

Lemma Part000Succession_product_pred n len :
  Part000Succession.product (jssub n (Num 1)) len = fallingFactorial n len.
Proof.
  rewrite fallingFactorial_fold. unfold Part000Succession.product.
  rewrite <-(fmap_S_seq 0), <-list_fmap_compose.
  change (λ a b, jsmul a b) with jsmul. f_equal.
  apply list_fmap_ext. intros j i _. apply jssub_pred.
Qed.

Lemma of_nat_pred j : jssub (of_nat (S j)) (Num 1) = of_nat j.
Proof. unfold of_nat. simpl. f_equal. rewrite Qn_S. ring. Qed.

Lemma Part000Succession_product_of_nat j len :
  Part000Succession.product (of_nat j) len = fallingFactorial (of_nat (S j)) len.
Proof. by rewrite <-Part000Succession_product_pred, of_nat_pred. Qed.

Example second_product_5_3 : Part000Succession.product (of_Z 5) 3 = of_Z 60.
Proof. compute_done. Qed.

Example Succession_table_10_100_1000 :
  Part000Succession.b_numbers (Part000Succession.constructor (ints [10; 100; 1000]%Z))
  = ints [10; 190; 1000]%Z.
Proof. compute_done. Qed.

Example Succession_table_after_1 :
  Part000Succession.b_numbers
    (snd (Part000Succession.getValueByN
            (Part000Succession.constructor (ints [10; 100; 1000]%Z)) (of_Z 1)))
  = ints [10; 10; 10]%Z.
Proof. compute_done. Qed.

Example Succession_1_4_9_at_4 :
  fst (Part000Succession.getValueByN
         (Part000Succession.constructor (ints [1; 4; 9]%Z)) (of_Z 4))
  = of_Z 7.
Proof. compute_done. Qed.


Lemma b_n_upto_length args n :
  Part000Succession.b_n args n = Part000Succession.b_n_upto args n (length args).
Proof. reflexivity. Qed.

Lemma b_n_upto_1 args n : Part000Succession.b_n_upto args n 1 = array_get args 0.
Proof. unfold Part000Succession.b_n_upto. by rewrite for_up_nil by lia. Qed.

Lemma b_n_upto_S args n k :
  (1 ≤ k)%nat →
  Part000Succession.b_n_upto args n (S k)
  = jsadd
      (jsdiv
         (jsmul (jssub (array_get args k) (Part000Succession.b_n_upto args n k))
                (Part000Succession.product n k))
         (Part000Succession.factorial k))
      (Part000Succession.b_n_upto args n k).
Proof. intros Hk. unfold Part000Succession.b_n_upto. by rewrite for_up_snoc by lia. Qed.

Lemma b_n_take args n k :
  (1 ≤ k ≤ length args)%nat →
  Part000Succession.b_n (take k args) n = Part000Succession.b_n_upto args n k.
Proof.
  intros Hk. rewrite b_n_upto_length, length_take_le by lia.
  unfold Part000Succession.b_n_upto.
  rewrite array_get_take by lia. apply for_up_ext. intros r i Hi.
  by rewrite array_get_take by lia.
Qed.







(** On two arguments the stand-alone [b_n] is [b_n2], on three it is
    [b_n3], for all values. *)
Lemma b_n_on_two_and_three (a1 a2 a3 n : value) :
  Part000Succession.b_n [a1; a2] n = Part000Succession.b_n2 a1 a2 n
  ∧ Part000Succession.b_n [a1; a2; a3] n = Part000Succession.b_n3 a1 a2 a3 n.
Proof. split; reflexivity. Qed.

(** ** The second script: the class [Succession] *)

(** The table while the loop of the method [b_n] runs: the slots below the
    counter hold the running results of the stand-alone [b_n], the others
    are as they were. *)
Lemma method_loop_table this args0 n k :
  length (Part000Succession.b_numbers this) = length args0 →
  (1 ≤ k ≤ length args0)%nat →
  for_up 1 k (Part000Succession.method_step args0 n)
    (Part000Succession.set_b_number this 0 (array_get args0 0))
  = Part000Succession.mkSuccession (Part000Succession.args this)
      (((λ i, Part000Succession.b_n_upto args0 n (S i)) <$> seq 0 k)
       ++ drop k (Part000Succession.b_numbers this)).
Proof.
  intros Hlen. induction k as [|k IH]; intros Hk; [lia|].
  destruct (decide (k = 0%nat)) as [->|Hne].
  - rewrite for_up_nil by lia. unfold Part000Succession.set_b_number.
    f_equal. unfold array_set. rewrite decide_True by lia.
    destruct (Part000Succession.b_numbers this) as [|x b]; [simpl in *; lia|].
    simpl. by rewrite b_n_upto_1, drop_0.
  - rewrite for_up_snoc by lia. rewrite IH by lia.
    unfold Part000Succession.method_step, Part000Succession.set_b_number.
    cbn [Part000Succession.args Part000Succession.b_numbers]. f_equal.
    set (L := (λ i, Part000Succession.b_n_upto args0 n (S i)) <$> seq 0 k).
    assert (length L = k) as HL by (unfold L; by rewrite length_fmap, length_seq).
    assert (array_get (L ++ drop k (Part000Succession.b_numbers this)) (k - 1)
            = Part000Succession.b_n_upto args0 n k) as ->.
    { unfold array_get. rewrite lookup_app_l by lia. unfold L.
      rewrite list_lookup_fmap, lookup_seq_lt by lia. simpl.
      by replace (S (k - 1)) with k by lia. }
    rewrite <-b_n_upto_S by lia.
    destruct (lookup_lt_is_Some_2 (Part000Succession.b_numbers this) k)
      as [y Hy]; [lia|].
    rewrite (drop_S _ y k Hy).
    unfold array_set. rewrite decide_True by (rewrite length_app; simpl; lia).
    rewrite insert_app_r_alt by lia. rewrite HL, Nat.sub_diag.
    rewrite seq_S, fmap_app. fold L. by rewrite <-app_assoc.
Qed.

Lemma method_b_n_spec this args0 n :
  length (Part000Succession.b_numbers this) = length args0 →
  (1 ≤ length args0)%nat →
  Part000Succession.method_b_n this args0 n
  = (Part000Succession.b_n args0 (jssub n (Num 1)),
     Part000Succession.mkSuccession (Part000Succession.args this)
       ((λ i, Part000Succession.b_n (take (S i) args0) (jssub n (Num 1)))
          <$> seq 0 (length args0))).
Proof.
  intros Hlen Hm. unfold Part000Succession.method_b_n.
  rewrite method_loop_table by (done || lia).
  cbn [Part000Succession.b_numbers].
  rewrite drop_ge, app_nil_r by lia.
  rewrite length_fmap, length_seq. f_equal.
  - unfold array_get.
    rewrite list_lookup_fmap, lookup_seq_lt by lia. simpl.
    by replace (S (length args0 - 1)) with (length args0) by lia.
  - f_equal. apply list_fmap_ext. intros j i Hi.
    apply lookup_seq in Hi as [-> Hi]. symmetry. apply b_n_take. lia.
Qed.

Lemma Succession_constructor_spec args0 :
  (1 ≤ length args0)%nat →
  Part000Succession.constructor args0
  = Part000Succession.mkSuccession args0
      ((λ i, Part000Succession.b_n (take (S i) args0)
               (jssub (of_nat (length args0)) (Num 1)))
         <$> seq 0 (length args0)).
Proof.
  intros Hm. unfold Part000Succession.constructor.
  rewrite method_b_n_spec; [done| |done]. simpl. apply length_replicate.
Qed.

Lemma Succession_constructor_shape args0 :
  (1 ≤ length args0)%nat →
  Part000Succession.args (Part000Succession.constructor args0) = args0
  ∧ length (Part000Succession.b_numbers (Part000Succession.constructor args0))
    = length args0.
Proof.
  intros Hm. rewrite Succession_constructor_spec by done. simpl.
  by rewrite length_fmap, length_seq.
Qed.

(** X19. [getValueByN] of [Succession] rewrites the table: on an object
    whose table has as many slots as it has arguments (at least one), it
    returns what the stand-alone [b_n] returns one position lower,
    [b_n(...args)(n - 1)], and leaves in slot [i] the value of [b_n] on
    the first [i + 1] arguments at [n - 1], whatever the table held
    before. *)
Theorem getValueByN_rewrites_the_table
    (this : Part000Succession.Succession) (n : value) :
  length (Part000Succession.b_numbers this)
  = length (Part000Succession.args this) →
  (1 ≤ length (Part000Succession.args this))%nat →
  Part000Succession.getValueByN this n
  = (Part000Succession.b_n (Part000Succession.args this) (jssub n (Num 1)),
     Part000Succession.mkSuccession (Part000Succession.args this)
       ((λ i, Part000Succession.b_n (take (S i) (Part000Succession.args this))
                (jssub n (Num 1)))
          <$> seq 0 (length (Part000Succession.args this)))).
Proof. intros Hlen Hm. by apply method_b_n_spec. Qed.

Lemma getValueByN_rewrites_the_table_witness :
  length (Part000Succession.b_numbers
            (Part000Succession.constructor (ints [10; 100; 1000]%Z)))
  = length (Part000Succession.args
              (Part000Succession.constructor (ints [10; 100; 1000]%Z)))
  ∧ (1 ≤ length (Part000Succession.args
                   (Part000Succession.constructor (ints [10; 100; 1000]%Z))))%nat
  ∧ Part000Succession.getValueByN
      (Part000Succession.constructor (ints [10; 100; 1000]%Z)) (of_Z 1)
    = (Part000Succession.b_n
         (Part000Succession.args
            (Part000Succession.constructor (ints [10; 100; 1000]%Z)))
         (jssub (of_Z 1) (Num 1)),
       Part000Succession.mkSuccession
         (Part000Succession.args
            (Part000Succession.constructor (ints [10; 100; 1000]%Z)))
         ((λ i, Part000Succession.b_n
                  (take (S i)
                     (Part000Succession.args
                        (Part000Succession.constructor (ints [10; 100; 1000]%Z))))
                  (jssub (of_Z 1) (Num 1)))
            <$> seq 0
                  (length
                     (Part000Succession.args
                        (Part000Succession.constructor (ints [10; 100; 1000]%Z)))))).
Proof.
  assert (length (Part000Succession.b_numbers
                    (Part000Succession.constructor (ints [10; 100; 1000]%Z)))
          = length (Part000Succession.args
                      (Part000Succession.constructor (ints [10; 100; 1000]%Z))))
    as Hlen by reflexivity.
  assert (1 ≤ length (Part000Succession.args
                        (Part000Succession.constructor (ints [10; 100; 1000]%Z))))%nat
    as Hm by (simpl; lia).
  split; [exact Hlen|]. split; [exact Hm|].
  exact (getValueByN_rewrites_the_table _ (of_Z 1) Hlen Hm).
Defined.

(** X20. [getValueByN] of [Succession] forgets its history: after
    [new Succession(...args)] with at least one argument, an evaluation at
    [n1] changes neither the value an evaluation at [n2] returns nor the
    table it leaves. *)
Theorem getValueByN_forgets_history (args0 : list value) (n1 n2 : value) :
  (1 ≤ length args0)%nat →
  Part000Succession.getValueByN
    (snd (Part000Succession.getValueByN (Part000Succession.constructor args0) n1))
    n2
  = Part000Succession.getValueByN (Part000Succession.constructor args0) n2.
Proof.
  intros Hm. destruct (Succession_constructor_shape args0 Hm) as [Hargs Hlen].
  unfold Part000Succession.getValueByN at 2 3.
  rewrite !method_b_n_spec by (rewrite ?Hargs; done || lia).
  unfold Part000Succession.getValueByN. cbn [snd Part000Succession.args].
  rewrite method_b_n_spec; [done| |by rewrite Hargs].
  cbn [Part000Succession.b_numbers]. by rewrite length_fmap, length_seq.
Qed.

Lemma getValueByN_forgets_history_witness :
  (1 ≤ length (ints [10; 100; 1000]%Z))%nat
  ∧ Part000Succession.getValueByN
      (snd (Part000Succession.getValueByN
              (Part000Succession.constructor (ints [10; 100; 1000]%Z)) (of_Z 1)))
      (of_Z 7)
    = Part000Succession.getValueByN
        (Part000Succession.constructor (ints [10; 100; 1000]%Z)) (of_Z 7).
Proof.
  assert (1 ≤ length (ints [10; 100; 1000]%Z))%nat as Hm by (simpl; lia).
  split; [exact Hm|].
  exact (getValueByN_forgets_history _ (of_Z 1) (of_Z 7) Hm).
Defined.





(** X23. [Succession] without arguments: [new Succession()] cannot leave
    the table empty, because the method [b_n] writes slot 0 before its
    loop; the table grows to one [undefined] slot, and every evaluation
    returns [undefined] and leaves the object as it is. *)
Theorem Succession_without_arguments (n : value) :
  Part000Succession.constructor []
  = Part000Succession.mkSuccession [] [Undefined]
  ∧ Part000Succession.getValueByN (Part000Succession.constructor []) n
    = (Undefined, Part000Succession.constructor []).
Proof. split; reflexivity. Qed.


(** * Polynomials *)









Example squares_in_newton_form :
  samples (newton_form [Qc_of_Z 1; Qc_of_Z 3; Qc_of_Z 1]) 4 = ints [1; 4; 9; 16]%Z.
Proof. compute_done. Qed.
